(** * Cloudsniper: the development-server proxy rule of [vite.config.ts]

    The configuration declares one proxy rule, keyed by the path prefix
    ["/api"], whose only first-party code is

      rewrite: (path) => path.replace(/^\/api/, '')

    This file embeds that function together with the part of the
    ECMAScript semantics it runs on ([String.prototype.replace] with a
    regular-expression object: the matcher, [RegExpBuiltinExec] with its
    [lastIndex] bookkeeping, and the replacement loop), and proves the
    path-rewriting properties of the rule.

    Request paths are the [req.url] strings of Node's HTTP server.  The
    pattern holds literal characters only, so nothing depends on the
    width of a code unit, and a path is a [string] of [ascii]. *)

From Stdlib Require Import String Ascii List Arith Bool Lia.
Import ListNotations.
Open Scope string_scope.

(** ** Regular expressions *)

Module RegExp.

(** The terms that occur in the pattern [^\/api]: the start-of-input
    assertion and pattern characters ([\/] is the identity escape of [/]). *)
Inductive Term : Type :=
| AssertStart
| PatternChar (c : ascii).

Definition Pattern : Type := list Term.

(** A regular-expression object.  Of the flags only [global] and [sticky]
    steer how [lastIndex] is read and written; the literal of the
    configuration has an empty flag string, so case folding, multi-line
    anchors and unicode mode are off and the matcher below is the one for
    that case. *)
Record t : Type := mk {
  source : Pattern;
  global : bool;
  sticky : bool;
  lastIndex : nat
}.

Definition setLastIndex (R : t) (i : nat) : t :=
  mk (source R) (global R) (sticky R) i.

(** Evaluation of a flagless literal: a fresh object, [lastIndex] 0. *)
Definition create (p : Pattern) : t := mk p false false 0.

(** The matcher of a pattern, started at end index [e] of the input [S]:
    the end index of the match, or failure.  Without the multi-line flag
    [^] succeeds at index 0 only. *)
Fixpoint matcher (p : Pattern) (S : string) (e : nat) : option nat :=
  match p with
  | [] => Some e
  | AssertStart :: p' =>
      if Nat.eqb e 0 then matcher p' S e else None
  | PatternChar c :: p' =>
      match String.get e S with
      | Some ch => if Ascii.eqb ch c then matcher p' S (e + 1) else None
      | None => None
      end
  end.

(** A successful match: its start index and its end index. *)
Record MatchResult : Type := mkMatch { index : nat; endIndex : nat }.

(** The search loop of [RegExpBuiltinExec].  [n] counts the start
    positions left to try, from [i] up to the length of [S] included; past
    the length the loop gives up.  A sticky object tries one position only.
    The result carries the object, whose [lastIndex] a global or sticky
    object updates. *)
Fixpoint execLoop (R : t) (S : string) (i n : nat) : t * option MatchResult :=
  match n with
  | 0 =>
      (if global R || sticky R then setLastIndex R 0 else R, None)
  | Datatypes.S n' =>
      match matcher (source R) S i with
      | None =>
          if sticky R then (setLastIndex R 0, None)
          else execLoop R S (i + 1) n'
      | Some e =>
          (if global R || sticky R then setLastIndex R e else R,
           Some (mkMatch i e))
      end
  end.

Definition RegExpBuiltinExec (R : t) (S : string) : t * option MatchResult :=
  let i := if global R || sticky R then lastIndex R else 0 in
  execLoop R S i (Datatypes.S (String.length S) - i).

(** The matches that [replace] collects: one for a non-global object, all
    of them for a global one, stepping over an empty match.  [n] bounds the
    number of rounds; [replace] allows the length of the input plus two,
    which is enough for every object ([replace_rounds_enough] below). *)
Fixpoint collect (R : t) (S : string) (n : nat) : t * list MatchResult :=
  match n with
  | 0 => (R, [])
  | Datatypes.S n' =>
      match RegExpBuiltinExec R S with
      | (R1, None) => (R1, [])
      | (R1, Some m) =>
          if global R1 then
            let R2 := if Nat.eqb (endIndex m) (index m)
                      then setLastIndex R1 (lastIndex R1 + 1) else R1 in
            let (R3, ms) := collect R2 S n' in (R3, m :: ms)
          else (R1, [m])
      end
  end.

(** The pieces of [S] between the matches, each followed by the
    replacement text; [next] is the next source position. *)
Fixpoint assemble (S replacement : string) (ms : list MatchResult)
    (next : nat) (acc : string) : string :=
  match ms with
  | [] => acc ++ substring next (String.length S - next) S
  | m :: ms' =>
      if Nat.leb next (index m) then
        assemble S replacement ms' (endIndex m)
          (acc ++ substring next (index m - next) S ++ replacement)
      else assemble S replacement ms' next acc
  end.

(** [S.replace(R, replacement)] for a replacement text without [$]
    patterns, which is then inserted as it is.  Returns the object too. *)
Definition replace (S : string) (R : t) (replacement : string) : t * string :=
  let R0 := if global R then setLastIndex R 0 else R in
  let (R1, ms) := collect R0 S (String.length S + 2) in
  (R1, assemble S replacement ms 0 "").

End RegExp.

(** ** The configuration *)

(** The pattern of the literal [/^\/api/]. *)
Definition apiPattern : RegExp.Pattern :=
  [RegExp.AssertStart; RegExp.PatternChar "/"; RegExp.PatternChar "a";
   RegExp.PatternChar "p"; RegExp.PatternChar "i"].

(** [rewrite: (path) => path.replace(/^\/api/, '')]; the literal is
    evaluated at each call. *)
Definition rewrite (path : string) : string :=
  snd (RegExp.replace path (RegExp.create apiPattern) "").

(** An object that carries the pattern and the (empty) flags of the
    literal, in whatever state its [lastIndex] is. *)
Definition apiRegExp (li : nat) : RegExp.t :=
  RegExp.mk apiPattern false false li.

(** The body of [rewrite] run twice in a row on one and the same
    regular-expression object [R], the state of the object threaded from
    the first call to the second: the object at the end and both outputs. *)
Definition replaceTwice (R : RegExp.t) (path : string)
    : RegExp.t * (string * string) :=
  let (R1, out1) := RegExp.replace path R "" in
  let (R2, out2) := RegExp.replace path R1 "" in
  (R2, (out1, out2)).

(** The options of one proxy rule; [rewriteOpt] is the option [rewrite],
    whose name the function above has taken. *)
Record ProxyOptions : Type := {
  target : string;
  changeOrigin : bool;
  rewriteOpt : string -> string;
  secure : bool
}.

(** The rule under the key ['/api'] of [server.proxy]. *)
Definition apiContext : string := "/api".

Definition apiRule : ProxyOptions :=
  {| target := "https://tczswboifjsccnvhzq2vng2xm40kmrfb.lambda-url.ap-south-1.on.aws";
     changeOrigin := true;
     rewriteOpt := rewrite;
     secure := true |}.

(** [server.proxy]: the rules, keyed by their context. *)
Definition proxy : list (string * ProxyOptions) := [(apiContext, apiRule)].

(** ** The middleware that consumes the rules *)

(** Modelled from the spec: the matching test of the development server's
    proxy middleware, which is not part of the repository.  "A request
    matches if its path starts with [prefix]." *)
Definition matches (context url : string) : bool := String.prefix context url.

(** Modelled from the spec: the routing step of the same middleware, not
    part of the repository.  "Non-matching requests are not touched by
    this rule"; of a matching request "the matched path has the leading
    [prefix] removed", by the rule's [rewrite], before it is forwarded.
    The result is the rule chosen and the path sent upstream. *)
Definition route (url : string) : option (ProxyOptions * string) :=
  match find (fun r => matches (fst r) url) proxy with
  | Some (_, opts) => Some (opts, rewriteOpt opts url)
  | None => None
  end.

(** ** The rule as configured *)

Lemma apiRule_options :
  changeOrigin apiRule = true /\ secure apiRule = true
  /\ rewriteOpt apiRule = rewrite
  /\ proxy = [("/api", apiRule)].
Proof. repeat split. Qed.

(** ** Strings *)

Lemma substring_whole (s : string) : substring 0 (String.length s) s = s.
Proof.
  induction s as [|c s IH]; simpl; [reflexivity | now rewrite IH].
Qed.

Lemma append_length (a b : string) :
  String.length (a ++ b) = String.length a + String.length b.
Proof.
  induction a as [|c a IH]; simpl; [reflexivity | now rewrite IH].
Qed.

(** [String.prefix] decides "starts with". *)
Lemma prefix_starts (a s : string) :
  String.prefix a s = true <-> exists rest, s = a ++ rest.
Proof.
  revert s; induction a as [|c a IH]; intros s.
  - destruct s; simpl; split; eauto.
  - destruct s as [|d s]; simpl.
    + split; [discriminate | intros [rest H]; discriminate].
    + destruct (ascii_dec c d) as [->|Hcd].
      * rewrite IH. split; intros [rest H]; exists rest.
        -- now subst.
        -- now injection H.
      * split; [discriminate | intros [rest H]].
        injection H as H1 H2. congruence.
Qed.

Lemma prefix_not_starts (a s : string) :
  String.prefix a s = false <-> ~ exists rest, s = a ++ rest.
Proof.
  rewrite <- prefix_starts. destruct (String.prefix a s); split;
    congruence.
Qed.

(** ** The matcher on the pattern of the rule *)

Lemma matcher_api_hit (rest : string) :
  RegExp.matcher apiPattern ("/api" ++ rest) 0 = Some 4.
Proof. reflexivity. Qed.

Lemma matcher_api_start (S : string) (e : nat) :
  RegExp.matcher apiPattern S 0 = Some e ->
  e = 4 /\ exists rest, S = "/api" ++ rest.
Proof.
  unfold apiPattern; simpl.
  destruct S as [|c0 [|c1 [|c2 [|c3 rest]]]]; simpl;
    repeat match goal with
    | |- context [Ascii.eqb ?x ?y] =>
        destruct (Ascii.eqb_spec x y); [subst|]; simpl
    end; try discriminate.
  intros H; injection H as <-. split; [reflexivity | now exists rest].
Qed.

Lemma matcher_api_miss (S : string) :
  (~ exists rest, S = "/api" ++ rest) ->
  RegExp.matcher apiPattern S 0 = None.
Proof.
  intros H. destruct (RegExp.matcher apiPattern S 0) as [e|] eqn:E;
    [|reflexivity].
  apply matcher_api_start in E. tauto.
Qed.

(** [^] fails at every index but 0. *)
Lemma matcher_api_later (S : string) (i : nat) :
  RegExp.matcher apiPattern S (i + 1) = None.
Proof.
  unfold apiPattern; simpl. now rewrite Nat.add_1_r.
Qed.

(** ** [exec] and [replace] on a flagless object with the pattern of the rule *)

Lemma execLoop_succ (R : RegExp.t) (S : string) (i n : nat) :
  RegExp.execLoop R S i (Datatypes.S n)
  = match RegExp.matcher (RegExp.source R) S i with
    | None =>
        if RegExp.sticky R then (RegExp.setLastIndex R 0, None)
        else RegExp.execLoop R S (i + 1) n
    | Some e =>
        (if RegExp.global R || RegExp.sticky R
         then RegExp.setLastIndex R e else R,
         Some (RegExp.mkMatch i e))
    end.
Proof. reflexivity. Qed.

Lemma execLoop_api_later (li : nat) (S : string) (i n : nat) :
  RegExp.execLoop (apiRegExp li) S (i + 1) n = (apiRegExp li, None).
Proof.
  revert i; induction n as [|n IH]; intros i; [reflexivity|].
  rewrite execLoop_succ.
  change (RegExp.source (apiRegExp li)) with apiPattern.
  rewrite matcher_api_later. apply IH.
Qed.

Lemma exec_api_hit (li : nat) (rest : string) :
  RegExp.RegExpBuiltinExec (apiRegExp li) ("/api" ++ rest)
  = (apiRegExp li, Some (RegExp.mkMatch 0 4)).
Proof. reflexivity. Qed.

Lemma exec_api_miss (li : nat) (S : string) :
  (~ exists rest, S = "/api" ++ rest) ->
  RegExp.RegExpBuiltinExec (apiRegExp li) S = (apiRegExp li, None).
Proof.
  intros H. unfold RegExp.RegExpBuiltinExec.
  change (RegExp.global (apiRegExp li) || RegExp.sticky (apiRegExp li))
    with false.
  cbv iota zeta. rewrite Nat.sub_0_r, execLoop_succ.
  change (RegExp.source (apiRegExp li)) with apiPattern.
  rewrite (matcher_api_miss S H).
  apply (execLoop_api_later li S 0).
Qed.

Lemma collect_succ (R : RegExp.t) (S : string) (n : nat) :
  RegExp.collect R S (Datatypes.S n)
  = match RegExp.RegExpBuiltinExec R S with
    | (R1, None) => (R1, [])
    | (R1, Some m) =>
        if RegExp.global R1 then
          let R2 := if Nat.eqb (RegExp.endIndex m) (RegExp.index m)
                    then RegExp.setLastIndex R1 (RegExp.lastIndex R1 + 1)
                    else R1 in
          let (R3, ms) := RegExp.collect R2 S n in (R3, m :: ms)
        else (R1, [m])
    end.
Proof. reflexivity. Qed.

Lemma replace_api_hit (li : nat) (rest : string) :
  RegExp.replace ("/api" ++ rest) (apiRegExp li) "" = (apiRegExp li, rest).
Proof.
  unfold RegExp.replace.
  change (RegExp.global (apiRegExp li)) with false. cbv iota.
  rewrite Nat.add_succ_r, collect_succ, exec_api_hit.
  simpl. now rewrite Nat.sub_0_r, substring_whole.
Qed.

Lemma replace_api_miss (li : nat) (S : string) :
  (~ exists rest, S = "/api" ++ rest) ->
  RegExp.replace S (apiRegExp li) "" = (apiRegExp li, S).
Proof.
  intros H. unfold RegExp.replace.
  change (RegExp.global (apiRegExp li)) with false. cbv iota.
  rewrite Nat.add_succ_r, collect_succ, (exec_api_miss li S H).
  simpl. now rewrite Nat.sub_0_r, substring_whole.
Qed.

Lemma rewrite_hit (rest : string) : rewrite ("/api" ++ rest) = rest.
Proof.
  unfold rewrite. change (RegExp.create apiPattern) with (apiRegExp 0).
  now rewrite replace_api_hit.
Qed.

Lemma rewrite_miss (p : string) :
  (~ exists rest, p = "/api" ++ rest) -> rewrite p = p.
Proof.
  intros H. unfold rewrite.
  change (RegExp.create apiPattern) with (apiRegExp 0).
  now rewrite (replace_api_miss 0 p H).
Qed.

(** ** The bound on the rounds of [replace] *)

Lemma matcher_end (p : RegExp.Pattern) (S : string) (e e' : nat) :
  RegExp.matcher p S e = Some e' -> e <= e'.
Proof.
  revert e; induction p as [|[|c] p IH]; intros e; simpl.
  - intros H; injection H as <-. lia.
  - destruct (Nat.eqb e 0); [apply IH | discriminate].
  - destruct (String.get e S) as [ch|]; [|discriminate].
    destruct (Ascii.eqb ch c); [|discriminate].
    intros H. apply IH in H. lia.
Qed.

Lemma execLoop_some (R R' : RegExp.t) (S : string) (i n : nat)
    (m : RegExp.MatchResult) :
  RegExp.execLoop R S i n = (R', Some m) ->
  i <= RegExp.index m < i + n
  /\ RegExp.index m <= RegExp.endIndex m
  /\ R' = (if RegExp.global R || RegExp.sticky R
           then RegExp.setLastIndex R (RegExp.endIndex m) else R).
Proof.
  revert i; induction n as [|n IH]; intros i; [discriminate|].
  rewrite execLoop_succ.
  destruct (RegExp.matcher (RegExp.source R) S i) as [e|] eqn:M.
  - intros H; injection H as <- <-. simpl.
    apply matcher_end in M. repeat split; lia.
  - destruct (RegExp.sticky R); [discriminate|].
    intros H. apply IH in H. destruct H as (H1 & H2 & H3).
    repeat split; try assumption; lia.
Qed.

(** Once [n] rounds are enough, more rounds change nothing.  A non-global
    object takes one round; a global one moves [lastIndex] forward in each
    round and stops when the search starts past the end of the input. *)
Lemma collect_rounds (S : string) (n : nat) :
  forall (R : RegExp.t) (m : nat),
    1 <= n ->
    (RegExp.global R = true ->
     Datatypes.S (String.length S) - RegExp.lastIndex R < n) ->
    n <= m ->
    RegExp.collect R S n = RegExp.collect R S m.
Proof.
  induction n as [|n IH]; intros R m Hn Hg Hm; [lia|].
  destruct m as [|m]; [lia|].
  rewrite !collect_succ.
  destruct (RegExp.RegExpBuiltinExec R S) as [R1 [r|]] eqn:E;
    [|reflexivity].
  unfold RegExp.RegExpBuiltinExec in E.
  apply execLoop_some in E. destruct E as (Hi & He & ->).
  destruct (RegExp.global R) eqn:G; simpl.
  - specialize (Hg eq_refl). rewrite G. cbn [orb] in Hi.
    rewrite (IH _ m); [reflexivity | lia | | lia].
    intros _. destruct (Nat.eqb_spec (RegExp.endIndex r) (RegExp.index r));
      cbn [RegExp.lastIndex RegExp.setLastIndex]; lia.
  - destruct (RegExp.sticky R); simpl; rewrite G; reflexivity.
Qed.

(** The rounds that [replace] allows are enough for every object and
    every input. *)
Lemma replace_rounds_enough (S : string) (R : RegExp.t) (n : nat) :
  String.length S + 2 <= n ->
  RegExp.collect (if RegExp.global R then RegExp.setLastIndex R 0 else R)
    S n
  = RegExp.collect (if RegExp.global R then RegExp.setLastIndex R 0 else R)
      S (String.length S + 2).
Proof.
  intros H. symmetry. apply collect_rounds; [lia | | exact H].
  destruct (RegExp.global R) eqn:G; simpl; [lia | congruence].
Qed.

(** [rewrite] in closed form: the first four characters go when they are
    ["/api"], and nothing else changes. *)
Lemma rewrite_closed_form (p : string) :
  rewrite p = if String.prefix "/api" p
              then substring 4 (String.length p - 4) p else p.
Proof.
  destruct (String.prefix "/api" p) eqn:E.
  - apply prefix_starts in E. destruct E as [rest ->].
    rewrite rewrite_hit. simpl.
    now rewrite Nat.sub_0_r, substring_whole.
  - apply prefix_not_starts in E. now apply rewrite_miss.
Qed.

(** ** Properties of the rule *)

(** C1. A path that starts with the prefix ["/api"] is rewritten to the
    same path with that leading prefix taken off once and the rest kept as
    it is: the path is ["/api"] followed by its rewriting.  In particular
    ["/api/scan"] becomes ["/scan"] and ["/api"] becomes the empty path. *)
Theorem rewrite_strips_prefix :
  (forall p : string,
      String.prefix apiContext p = true ->
      exists rest, p = apiContext ++ rest /\ rewrite p = rest)
  /\ rewrite "/api/scan" = "/scan"
  /\ rewrite "/api" = "".
Proof.
  split; [|split; reflexivity].
  intros p H. apply prefix_starts in H. destruct H as [rest ->].
  exists rest. split; [reflexivity | apply rewrite_hit].
Qed.

Lemma rewrite_strips_prefix_witness :
  String.prefix apiContext "/api/api/v1" = true
  /\ exists rest, "/api/api/v1" = apiContext ++ rest
                  /\ rewrite "/api/api/v1" = rest.
Proof.
  split; [reflexivity|].
  apply (proj1 rewrite_strips_prefix "/api/api/v1"). reflexivity.
Defined.

(** C2. A path that does not start with the prefix ["/api"] is not
    intercepted by the rule: the match test against the rule's context is
    false, no rule is chosen for it, and [rewrite] returns it unchanged. *)
Theorem passthrough_without_prefix (p : string)
    (H : ~ exists rest, p = apiContext ++ rest) :
  matches apiContext p = false /\ route p = None /\ rewrite p = p.
Proof.
  assert (M : matches apiContext p = false)
    by (unfold matches; now apply prefix_not_starts).
  split; [exact M|]. split; [|now apply rewrite_miss].
  unfold route, proxy. simpl. now rewrite M.
Qed.

Lemma passthrough_without_prefix_witness :
  matches apiContext "/src/api/main.tsx" = false
  /\ route "/src/api/main.tsx" = None
  /\ rewrite "/src/api/main.tsx" = "/src/api/main.tsx".
Proof.
  apply (passthrough_without_prefix "/src/api/main.tsx").
  intros [rest H]. simpl in H. discriminate H.
Defined.

(** For contrast: the same pattern on a sticky object does depend on the
    state of the object. *)
Example sticky_replace_reads_lastIndex :
  snd (RegExp.replace "/api" (RegExp.mk apiPattern false true 0) "") = ""
  /\ snd (RegExp.replace "/api" (RegExp.mk apiPattern false true 1) "")
     = "/api".
Proof. split; reflexivity. Qed.

(** C3. [rewrite] is a pure, deterministic transform of its input string.
    The only state [replace] could read besides the path is the
    [lastIndex] of the regular-expression object; with the flagless
    literal of the rule the output is the same in every such state, the
    object is left as it was, and two applications in a row on the same
    path give the same output, the one [rewrite] computes. *)
Theorem rewrite_pure_deterministic (p : string) (li li' : nat) :
  RegExp.replace p (apiRegExp li) "" = (apiRegExp li, rewrite p)
  /\ snd (RegExp.replace p (apiRegExp li) "")
     = snd (RegExp.replace p (apiRegExp li') "")
  /\ replaceTwice (apiRegExp li) p = (apiRegExp li, (rewrite p, rewrite p)).
Proof.
  assert (E : forall n, RegExp.replace p (apiRegExp n) ""
                        = (apiRegExp n, rewrite p)).
  { intros n. destruct (String.prefix "/api" p) eqn:P.
    - apply prefix_starts in P. destruct P as [rest ->].
      now rewrite replace_api_hit, rewrite_hit.
    - apply prefix_not_starts in P.
      now rewrite (replace_api_miss n p P), (rewrite_miss p P). }
  split; [apply E|]. split.
  - now rewrite !E.
  - unfold replaceTwice. now rewrite !E.
Qed.

(** C9. For every string the rewriting is a suffix of it: what is dropped
    in front is ["/api"] when the string starts with it and nothing
    otherwise, so the result is the string without its first four
    characters or the string itself, and is never longer.  An ["/api"]
    that is not at position 0, as in ["/foo/api/bar"], stays. *)
Theorem rewrite_is_suffix :
  (forall p : string,
      p = (if String.prefix "/api" p then "/api" else "") ++ rewrite p
      /\ rewrite p = (if String.prefix "/api" p
                      then substring 4 (String.length p - 4) p else p)
      /\ String.length (rewrite p) <= String.length p)
  /\ rewrite "/foo/api/bar" = "/foo/api/bar".
Proof.
  split; [|reflexivity].
  intros p. split; [|split; [apply rewrite_closed_form|]].
  - destruct (String.prefix "/api" p) eqn:P.
    + apply prefix_starts in P. destruct P as [rest ->].
      now rewrite rewrite_hit.
    + apply prefix_not_starts in P. now rewrite (rewrite_miss p P).
  - destruct (String.prefix "/api" p) eqn:P.
    + apply prefix_starts in P. destruct P as [rest ->].
      rewrite rewrite_hit, append_length. simpl. lia.
    + apply prefix_not_starts in P. rewrite (rewrite_miss p P). lia.
Qed.

(** C10. The match is a test on raw string prefixes, not on path
    segments.  In ["/apifoo"] the prefix ["/api"] is followed by ["f"],
    neither ["/"] nor the end; the path still matches the rule, is not
    under ["/api/"], and is forwarded as ["foo"].  So a path exists that
    the rule forwards though it was never under the ["/api/"] segment. *)
Theorem prefix_match_ignores_segments :
  matches apiContext "/apifoo" = true
  /\ String.get 4 "/apifoo" = Some "f"%char
  /\ String.prefix "/api/" "/apifoo" = false
  /\ rewrite "/apifoo" = "foo"
  /\ route "/apifoo" = Some (apiRule, "foo")
  /\ exists p : string,
       matches apiContext p = true
       /\ p <> "/api" /\ String.prefix "/api/" p = false
       /\ route p = Some (apiRule, rewrite p).
Proof.
  repeat (split; [reflexivity|]).
  exists "/apifoo". repeat split; discriminate.
Qed.

(** ** Further properties of [rewrite] *)

Lemma rewrite_cases (p : string) :
  (exists rest, p = "/api" ++ rest /\ rewrite p = rest)
  \/ (String.prefix "/api" p = false /\ rewrite p = p).
Proof.
  destruct (String.prefix "/api" p) eqn:P.
  - left. apply prefix_starts in P. destruct P as [rest ->].
    exists rest. split; [reflexivity | apply rewrite_hit].
  - right. split; [reflexivity|].
    apply prefix_not_starts in P. now apply rewrite_miss.
Qed.

Lemma prefix_api_append (rest : string) :
  String.prefix "/api" ("/api" ++ rest) = true.
Proof. apply prefix_starts. now exists rest. Qed.

Lemma append_longer (rest : string) : "/api" ++ rest <> rest.
Proof.
  intros H. apply (f_equal String.length) in H.
  rewrite append_length in H. simpl in H. lia.
Qed.

(** A prefix test that fails on [p] fails on every extension of [p], once
    [p] is as long as the prefix looked for. *)
Lemma prefix_false_append (a p q : string) :
  String.length a <= String.length p ->
  String.prefix a p = false -> String.prefix a (p ++ q) = false.
Proof.
  revert p; induction a as [|c a IH]; intros p L H.
  - destruct p; discriminate H.
  - destruct p as [|d p]; simpl in *; [lia|].
    destruct (ascii_dec c d); [|reflexivity].
    apply IH; [lia | exact H].
Qed.

(** X1. Rewriting is not idempotent: a second application changes the
    path again exactly when the first result still starts with ["/api"],
    and then takes a second prefix off, as for ["/api/api" ++ rest]. *)
Theorem rewrite_twice_fixed (p : string) :
  (rewrite (rewrite p) = rewrite p
   <-> String.prefix "/api" (rewrite p) = false)
  /\ forall rest, rewrite (rewrite ("/api" ++ "/api" ++ rest)) = rest.
Proof.
  split.
  - destruct (rewrite_cases (rewrite p)) as [(rest & E & R) | (P & R)].
    + rewrite R, E, prefix_api_append. split; [|discriminate].
      intros H. symmetry in H. now apply append_longer in H.
    + rewrite R, P. tauto.
  - intros rest. now rewrite !rewrite_hit.
Qed.

(** X2. The path sent upstream is empty for two inputs only: the empty
    path and the bare prefix ["/api"]. *)
Theorem rewrite_empty (p : string) :
  rewrite p = "" <-> p = "" \/ p = "/api".
Proof.
  split.
  - destruct (rewrite_cases p) as [(rest & -> & R) | (_ & R)]; rewrite R.
    + intros ->. now right.
    + intros ->. now left.
  - intros [-> | ->]; reflexivity.
Qed.

(** X3. Two paths are rewritten to the same result exactly when they are
    equal or one is the other with ["/api"] put in front, the shorter one
    not starting with ["/api"] itself. *)
Theorem rewrite_collisions (p q : string) :
  rewrite p = rewrite q
  <-> p = q
      \/ (p = "/api" ++ q /\ String.prefix "/api" q = false)
      \/ (q = "/api" ++ p /\ String.prefix "/api" p = false).
Proof.
  destruct (rewrite_cases p) as [(a & -> & Rp) | (Pp & Rp)];
    destruct (rewrite_cases q) as [(b & -> & Rq) | (Pq & Rq)];
    rewrite Rp, Rq, ?prefix_api_append.
  - split.
    + intros ->. now left.
    + intros [H | [[_ H] | [_ H]]]; try discriminate H.
      now injection H.
  - split.
    + intros ->. right; left. now split.
    + intros [H | [[H _] | [H _]]].
      * subst q. now rewrite prefix_api_append in Pq.
      * now injection H.
      * subst q. now rewrite prefix_api_append in Pq.
  - split.
    + intros ->. right; right. now split.
    + intros [H | [[H _] | [H _]]].
      * subst p. now rewrite prefix_api_append in Pp.
      * subst p. now rewrite prefix_api_append in Pp.
      * now injection H.
  - split.
    + intros ->. now left.
    + intros [H | [[H _] | [H _]]]; [exact H | |].
      * subst p. now rewrite prefix_api_append in Pp.
      * subst q. now rewrite prefix_api_append in Pq.
Qed.

(** X4. On the paths that start with ["/api"] the rewriting is injective:
    two different such paths are sent to two different upstream paths. *)
Theorem rewrite_injective_on_prefixed (p q : string)
    (Hp : String.prefix "/api" p = true)
    (Hq : String.prefix "/api" q = true)
    (E : rewrite p = rewrite q) :
  p = q.
Proof.
  apply prefix_starts in Hp, Hq.
  destruct Hp as [a ->], Hq as [b ->].
  rewrite !rewrite_hit in E. now subst.
Qed.

Lemma rewrite_injective_on_prefixed_witness :
  String.prefix "/api" "/api/scan?region=all" = true
  /\ String.prefix "/api" ("/api" ++ "/scan?region=all") = true
  /\ rewrite "/api/scan?region=all" = rewrite ("/api" ++ "/scan?region=all")
  /\ "/api/scan?region=all" = "/api" ++ "/scan?region=all".
Proof.
  repeat (split; [reflexivity|]).
  apply (rewrite_injective_on_prefixed
           "/api/scan?region=all" ("/api" ++ "/scan?region=all"));
    reflexivity.
Defined.

(** X5. The rewriting looks at the first four characters only: whatever
    is appended to a path of four characters or more (a further segment,
    a query string) is carried over unchanged. *)
Theorem rewrite_append (p q : string) (L : 4 <= String.length p) :
  rewrite (p ++ q) = rewrite p ++ q.
Proof.
  destruct (rewrite_cases p) as [(rest & -> & R) | (P & R)]; rewrite R.
  - change (("/api" ++ rest) ++ q) with ("/api" ++ rest ++ q).
    apply rewrite_hit.
  - apply rewrite_miss, prefix_not_starts, prefix_false_append;
      [exact L | exact P].
Qed.

Lemma rewrite_append_witness :
  4 <= String.length "/api/scan"
  /\ rewrite ("/api/scan" ++ "?region=all")
     = rewrite "/api/scan" ++ "?region=all".
Proof.
  split; [simpl; lia|].
  apply (rewrite_append "/api/scan" "?region=all"). simpl. lia.
Defined.

(** The bound of X5 is needed: a shorter path can be completed to the
    prefix by what is appended. *)
Example rewrite_append_short :
  rewrite ("/ap" ++ "i/scan") <> rewrite "/ap" ++ "i/scan".
Proof. discriminate. Qed.

(** X6. The rewritten path starts with ["/"] exactly when the input
    starts with ["/api/"] or, not starting with ["/api"], starts with
    ["/"]; a path such as ["/api?x=1"] or ["/apifoo"] loses its leading
    slash. *)
Theorem rewrite_leading_slash (p : string) :
  String.prefix "/" (rewrite p)
  = if String.prefix "/api" p then String.prefix "/api/" p
    else String.prefix "/" p.
Proof.
  destruct (rewrite_cases p) as [(rest & -> & R) | (P & R)]; rewrite R.
  - rewrite prefix_api_append. destruct rest; reflexivity.
  - now rewrite P.
Qed.
